(** * @corvid-agent/result: the Result type of [src/index.ts] and its laws

    The development embeds the TypeScript module [src/index.ts] in Rocq:

    - [Js] is the fragment of the JavaScript run time the module relies on:
      untyped values, [instanceof Error], [new Error(msg)], [String(x)]
      (which may throw), [x != null], and completions (normal return or
      [throw]);
    - [Result] and [ResultMethods] are the objects built by the two factories
      [createOk] and [createErr], with their fields and methods;
    - the exported functions follow ([ok], [err], [isOk], [isErr], [trySync],
      [tryAsync], [all], [allTuple], [any], [fromNullable], [fromPromise]);
    - [Store] is the same code for [map], [mapErr] and [flatMap] with object
      identity made explicit: instances live in a heap and the methods return
      references, which is what statements about "a new instance" need. *)

From stdpp Require Import base strings list gmap pretty.

Local Open Scope string_scope.
Local Open Scope Z_scope.
Local Open Scope list_scope.

(** ** The JavaScript fragment *)

Module Js.

(** The integers a number holds exactly and prints digit by digit: those
    between [-(2^53 - 1)] and [2^53 - 1]. *)
Definition safe_integer (n : Z) : bool := Z.abs n <=? 9007199254740991.

Record number : Type := Number {
  number_value : Z;
  number_safe : Is_true (safe_integer number_value)
}.

(** A run-time value. The generic parameters [T] and [E] of the source are
    erased at run time, so payloads are plain values.

    - [VNumber n] is a number that is a safe integer; [VNum 42] writes one;
    - [VDouble text] is any other number, named by the text [String] prints
      for it (["0.5"], ["1e+21"], ["NaN"]);
    - [VError name message] is an instance of [Error] or of a subclass
      ([name] is ["Error"], ["TypeError"], ["SyntaxError"], ...), with the
      conversion to text it inherits from [Error.prototype];
    - [VArr] is an array, with the conversion to text of [Array.prototype];
    - [VObj id conversion] is any other object or function, told apart by
      its address. Converting it to text runs the object's own [toString]
      and [valueOf], which either give a text ([inl text], for a plain object
      ["[object Object]"]) or throw ([inr thrown]; an object without
      either method, such as [Object.create(null)], throws a [TypeError]).

    Symbols and bigints are not modelled. *)
#[warnings="-register-all"] Inductive value : Type :=
| VUndefined
| VNull
| VBool (b : bool)
| VNumber (n : number)
| VDouble (text : string)
| VStr (s : string)
| VError (name message : string)
| VArr (elements : list value)
| VObj (id : positive) (conversion : string + value).

Abbreviation VNum n := (VNumber (Number n I)).

(** [e instanceof Error]. *)
Definition instanceof_Error (e : value) : bool :=
  match e with
  | VError _ _ => true
  | _ => false
  end.

(** [new Error(msg)]. *)
Definition new_Error (msg : string) : value := VError "Error" msg.

(** [e.message], for the values that have one. *)
Definition message (e : value) : option string :=
  match e with
  | VError _ msg => Some msg
  | _ => None
  end.

(** [x != null]: loose inequality with [null], false exactly for [null]
    and [undefined]. *)
Definition loose_ne_null (x : value) : bool :=
  match x with
  | VNull | VUndefined => false
  | _ => true
  end.

(** The outcome of running a piece of code: it returns, or it throws. *)
Inductive Completion (A : Type) : Type :=
| Return (a : A)
| Throw (thrown : value).
Arguments Return {A} a.
Arguments Throw {A} thrown.

Definition bind {A B} (c : Completion A) (k : A -> Completion B) : Completion B :=
  match c with
  | Return a => k a
  | Throw e => Throw e
  end.

(** [try { body } catch (e) { handler }]. *)
Definition try_catch {A} (body : Completion A) (handler : value -> Completion A)
  : Completion A :=
  match body with
  | Return a => Return a
  | Throw e => handler e
  end.

(** [Error.prototype.toString]. *)
Definition Error_toString (name msg : string) : string :=
  if String.eqb name "" then msg
  else if String.eqb msg "" then name
  else name +:+ ": " +:+ msg.

(** [Array.prototype.join(",")] over the texts of the elements. *)
Fixpoint join_comma (texts : list string) : string :=
  match texts with
  | [] => ""
  | [t] => t
  | t :: rest => t +:+ "," +:+ join_comma rest
  end.

(** [String(x)]: the conversion of a value to text. It returns a text or
    throws what the value's own conversion throws. An array converts its
    elements from left to right, [null] and [undefined] to the empty text,
    and throws what the first failing element throws. *)
Fixpoint ToString (x : value) : Completion string :=
  match x with
  | VUndefined => Return "undefined"
  | VNull => Return "null"
  | VBool true => Return "true"
  | VBool false => Return "false"
  | VNumber n => Return (pretty (number_value n))
  | VDouble text => Return text
  | VStr s => Return s
  | VError name msg => Return (Error_toString name msg)
  | VArr elements =>
      bind
        ((fix texts (l : list value) : Completion (list string) :=
            match l with
            | [] => Return []
            | e :: l' =>
                bind
                  match e with
                  | VUndefined | VNull => Return ""
                  | _ => ToString e
                  end
                  (fun t => bind (texts l') (fun ts => Return (t :: ts)))
            end) elements)
        (fun texts => Return (join_comma texts))
  | VObj _ (inl text) => Return text
  | VObj _ (inr thrown) => Throw thrown
  end.

End Js.
Import Js.

(** ** Result objects

    [Result] is the union of the two object shapes [Ok] and [Err] of the
    source. Every instance is built by one of the two factories,
    [createOk(value)] and [createErr(error)], which also install the methods;
    an [Ok] object therefore carries the methods written in [createOk] and an
    [Err] object those written in [createErr]. The readonly fields are read by
    [field_ok], [field_value] and [field_error]; reading the field the variant
    does not have gives [undefined]. *)

Inductive Result : Type :=
| Ok (value : value)
| Err (error : value).

Definition createOk (value : value) : Result := Ok value.

Definition createErr (error : value) : Result := Err error.

(** [result.ok] *)
Definition field_ok (result : Result) : bool :=
  match result with
  | Ok _ => true
  | Err _ => false
  end.

(** [result.value] *)
Definition field_value (result : Result) : value :=
  match result with
  | Ok value => value
  | Err _ => VUndefined
  end.

(** [result.error] *)
Definition field_error (result : Result) : value :=
  match result with
  | Ok _ => VUndefined
  | Err error => error
  end.

(** A plain object, as an object literal writes it: its own properties in
    the order they are listed. [toJSON] returns one, [{ ok: true, value }] or
    [{ ok: false, error }]. *)
Definition Serializable : Type := list (string * value).

(** [object.key]: the property, or [undefined] when the object has none of
    that name. *)
Fixpoint property (object : Serializable) (key : string) : value :=
  match object with
  | [] => VUndefined
  | (name, v) :: rest => if String.eqb name key then v else property rest key
  end.

(** The methods of a Result instance. Each method is a [match] on the shape
    of [self]: the first branch is the method body in [createOk], the second
    the one in [createErr]. Callbacks are total functions that return
    normally. *)
Module ResultMethods.

Definition isOk (self : Result) : bool :=
  match self with
  | Ok _ => true
  | Err _ => false
  end.

Definition isErr (self : Result) : bool :=
  match self with
  | Ok _ => false
  | Err _ => true
  end.

Definition map (self : Result) (fn : value -> value) : Result :=
  match self with
  | Ok value => createOk (fn value)
  | Err _ => self
  end.

Definition mapErr (self : Result) (fn : value -> value) : Result :=
  match self with
  | Ok _ => self
  | Err error => createErr (fn error)
  end.

Definition flatMap (self : Result) (fn : value -> Result) : Result :=
  match self with
  | Ok value => fn value
  | Err _ => self
  end.

(** [match({ ok, err })] *)
Definition match_ {A} (self : Result) (cases_ok cases_err : value -> A) : A :=
  match self with
  | Ok value => cases_ok value
  | Err error => cases_err error
  end.

(** In [createErr] the operand of [throw] is evaluated first; when
    [String(self.error)] throws, that is what [unwrap] throws. *)
Definition unwrap (self : Result) : Completion value :=
  match self with
  | Ok value => Return value
  | Err error =>
      Js.bind
        (if instanceof_Error error then Return error
         else Js.bind (ToString error) (fun text => Return (new_Error text)))
        (fun thrown => Throw thrown)
  end.

Definition unwrapOr (self : Result) (fallback : value) : value :=
  match self with
  | Ok value => value
  | Err _ => fallback
  end.

Definition unwrapOrElse (self : Result) (fn : value -> value) : value :=
  match self with
  | Ok value => value
  | Err error => fn error
  end.

Definition unwrapErr (self : Result) : Completion value :=
  match self with
  | Ok _ => Throw (new_Error "Called unwrapErr() on an Ok result")
  | Err error => Return error
  end.

Definition toJSON (self : Result) : Serializable :=
  match self with
  | Ok value => [("ok", VBool true); ("value", value)]
  | Err error => [("ok", VBool false); ("error", error)]
  end.

End ResultMethods.

(** ** The exported functions *)

Definition ok (value : value) : Result := createOk value.

Definition err (error : value) : Result := createErr error.

Definition isOk (result : Result) : bool := field_ok result.

Definition isErr (result : Result) : bool := negb (field_ok result).

(** [trySync(fn)]: the [try] block calls [fn] and wraps what it returns, the
    [catch] block normalises what was thrown. Nothing catches what the
    [catch] block itself throws, which [String(e)] may do. *)
Definition trySync (fn : unit -> Completion value) : Completion Result :=
  try_catch
    (Js.bind (fn tt) (fun returned => Return (ok returned)))
    (fun e =>
       Js.bind
         (if instanceof_Error e then Return e
          else Js.bind (ToString e) (fun text => Return (new_Error text)))
         (fun payload => Return (err payload))).

(** A promise, by the way it settles: fulfilled with a value, rejected with a
    reason, or never settled. *)
Inductive Promise (A : Type) : Type :=
| Fulfilled (a : A)
| Rejected (reason : value)
| Pending.
Arguments Fulfilled {A} a.
Arguments Rejected {A} reason.
Arguments Pending {A}.

(** [await p] inside an [async] function: the body goes on with the value,
    goes on by throwing the reason, or never goes on ([None]). *)
Definition await {A} (p : Promise A) : option (Completion A) :=
  match p with
  | Fulfilled a => Some (Return a)
  | Rejected reason => Some (Throw reason)
  | Pending => None
  end.

(** The promise an [async] function hands out: fulfilled with what its body
    returns, rejected with what its body throws, pending for ever when the
    body never gets past an [await]. *)
Definition async {A} (body : option (Completion A)) : Promise A :=
  match body with
  | Some (Return a) => Fulfilled a
  | Some (Throw e) => Rejected e
  | None => Pending
  end.

(** The argument of [tryAsync]: a function that returns a promise (and may
    throw before it does), or a promise. *)
Inductive Deferred : Type :=
| DeferredFunction (fn : unit -> Completion (Promise value))
| DeferredPromise (promise : Promise value).

(** [tryAsync(fn)]. Inside the [try] block the argument is called when it is
    a function ([typeof fn === "function" ? fn() : fn]) and the outcome is
    awaited; a throw of the call and a rejection both end in the [catch]
    block. *)
Definition tryAsync (fn : Deferred) : Promise Result :=
  async
    (let awaited :=
       match (match fn with
              | DeferredFunction f => f tt
              | DeferredPromise promise => Return promise
              end) with
       | Return promise => await promise
       | Throw e => Some (Throw e)
       end in
     match awaited with
     | None => None
     | Some outcome =>
         Some (try_catch
                 (Js.bind outcome (fun value => Return (ok value)))
                 (fun e =>
                    Js.bind
                      (if instanceof_Error e then Return e
                       else Js.bind (ToString e)
                              (fun text => Return (new_Error text)))
                      (fun payload => Return (err payload))))
     end).

(** [fromPromise(promise)] *)
Definition fromPromise (promise : Promise value) : Promise Result :=
  tryAsync (DeferredPromise promise).

(** [all(results)]: the [for] loop, with the array [values] it pushes to. *)
Fixpoint all_loop (results : list Result) (values : list value) : Result :=
  match results with
  | [] => ok (VArr values)
  | result :: rest =>
      if negb (field_ok result) then result
      else all_loop rest (values ++ [field_value result])
  end.

Definition all (results : list Result) : Result := all_loop results [].

(** [allTuple(...results)]: the rest parameter is the array of the arguments;
    the function has a loop of its own. *)
Fixpoint allTuple_loop (results : list Result) (values : list value) : Result :=
  match results with
  | [] => ok (VArr values)
  | result :: rest =>
      if negb (field_ok result) then result
      else allTuple_loop rest (values ++ [field_value result])
  end.

Definition allTuple (results : list Result) : Result := allTuple_loop results [].

(** The [for] loop of [any]: the first element whose [isOk()] is true, or
    nothing when the loop runs to its end. *)
Fixpoint any_loop (results : list Result) : option Result :=
  match results with
  | [] => None
  | result :: rest =>
      if ResultMethods.isOk result then Some result else any_loop rest
  end.

(** [any(results)]. The last line reads [results[results.length - 1]]; it is
    reached on a non-empty array only, so the index is in range and the
    default of [nth] is never returned. *)
Definition any (results : list Result) : Result :=
  if (length results =? 0)%nat
  then err (new_Error "any() called with empty array")
  else
    match any_loop results with
    | Some result => result
    | None => nth (length results - 1) results (err VUndefined)
    end.

Definition fromNullable (value error : value) : Result :=
  if loose_ne_null value then ok value else err error.

(** Modelled from the spec: [partition], which the tests import from
    [../src/index] but whose definition is not part of the sources at hand.
    The spec describes it as a single left-to-right scan that produces two
    ordered sequences, the success payloads and the failure payloads; the loop
    below appends each payload to the end of its sequence. *)
Fixpoint partition_loop (results : list Result) (successes failures : list value)
  : list value * list value :=
  match results with
  | [] => (successes, failures)
  | result :: rest =>
      if field_ok result
      then partition_loop rest (successes ++ [field_value result]) failures
      else partition_loop rest successes (failures ++ [field_error result])
  end.

(** Modelled from the spec: [partition(results)], the scan started with two
    empty sequences; it returns the pair [successes, failures]. *)
Definition partition (results : list Result) : list value * list value :=
  partition_loop results [] [].

(** ** Instances and their identity

    [map], [mapErr] and [flatMap] once more, now telling instances apart. A
    heap maps the address of every live instance to the object found there;
    the factories allocate at a fresh address, a method is invoked on the
    address [self] of its receiver and returns the address of its result
    together with the heap it leaves behind. A method invoked on an address
    that holds no instance has no meaning ([None]); JavaScript has no such
    call. *)
Module Store.

Definition ref : Type := positive.

Abbreviation heap := (gmap ref Result).

(** The object literal of a factory: a new instance, at an address no
    live instance has. *)
Definition alloc (object : Result) (h : heap) : ref * heap :=
  let self := fresh (dom h) in (self, <[self := object]> h).

Definition createOk (value : value) (h : heap) : ref * heap :=
  alloc (createOk value) h.

Definition createErr (error : value) (h : heap) : ref * heap :=
  alloc (createErr error) h.

Definition map (self : ref) (fn : value -> value) (h : heap)
  : option (ref * heap) :=
  match h !! self with
  | Some (Ok value) => Some (createOk (fn value) h)
  | Some (Err _) => Some (self, h)
  | None => None
  end.

Definition mapErr (self : ref) (fn : value -> value) (h : heap)
  : option (ref * heap) :=
  match h !! self with
  | Some (Ok _) => Some (self, h)
  | Some (Err error) => Some (createErr (fn error) h)
  | None => None
  end.

(** The callback of [flatMap] returns an instance, so it runs on the heap
    too. *)
Definition flatMap (self : ref) (fn : value -> heap -> ref * heap) (h : heap)
  : option (ref * heap) :=
  match h !! self with
  | Some (Ok value) => Some (fn value h)
  | Some (Err _) => Some (self, h)
  | None => None
  end.

(** The outcome [out] of a method is a new instance holding [object]: its
    address held nothing in [h], and the heap left behind is [h] with that
    one instance added. *)
Definition new_instance (h : heap) (object : Result)
    (out : option (ref * heap)) : Prop :=
  exists result h',
    out = Some (result, h')
    /\ h !! result = None
    /\ h' = <[result := object]> h.

(** The outcome [out] of a method is its receiver [self], with the heap
    left as it was. *)
Definition same_instance (h : heap) (self : ref)
    (out : option (ref * heap)) : Prop :=
  out = Some (self, h).

(** "A transformation always produces a new instance, distinct from the
    receiver", said of a method [op]. *)
Definition always_new_instance (op : ref -> heap -> option (ref * heap)) : Prop :=
  forall (h : heap) (self : ref) (object : Result),
    h !! self = Some object ->
    exists result h', op self h = Some (result, h') /\ result <> self.

End Store.

(** * Properties *)

(** ** Discriminant, methods and type guards *)

(** C10: for every Result, the method [isOk()] returns the [ok] field, the
    method [isErr()] returns the negation of [isOk()], so exactly one of the
    two holds, and the free-standing guards [isOk(r)] and [isErr(r)] agree
    with the methods. *)
Theorem isOk_isErr_consistent (r : Result) :
  ResultMethods.isOk r = field_ok r
  /\ ResultMethods.isErr r = negb (ResultMethods.isOk r)
  /\ xorb (ResultMethods.isOk r) (ResultMethods.isErr r) = true
  /\ isOk r = ResultMethods.isOk r
  /\ isErr r = ResultMethods.isErr r.
Proof.
  destruct r as [value | error]; cbn; repeat split.
Qed.

(** ** The laws of [map] and [flatMap]

    Equality is equality of objects by content (same variant, same payload),
    which is what the tests of the source compare. *)

(** C5: functor composition, [r.map(f).map(g)] is [r.map(x => g(f(x)))],
    for every Result [r] and all functions [f] and [g]. *)
Theorem map_compose (r : Result) (f g : value -> value) :
  ResultMethods.map (ResultMethods.map r f) g
  = ResultMethods.map r (g ∘ f).
Proof.
  unfold ResultMethods.map, createOk.
  case r; intros payload; reflexivity.
Qed.

(** C4: associativity of [flatMap], [r.flatMap(f).flatMap(g)] is
    [r.flatMap(x => f(x).flatMap(g))]. *)
Theorem flatMap_assoc (r : Result) (f g : value -> Result) :
  ResultMethods.flatMap (ResultMethods.flatMap r f) g
  = ResultMethods.flatMap r (fun x => ResultMethods.flatMap (f x) g).
Proof.
  destruct r as [value | error].
  - (* Ok: both sides are [f value] chained with [g] *)
    reflexivity.
  - (* Err: the receiver goes through both steps *)
    reflexivity.
Qed.

(** ** Termination by [unwrap] *)

(** The texts [String] gives, and two objects on which it throws: one whose
    [toString] throws a [TypeError], one whose [toString] throws a number. *)
Example ToString_samples :
  ToString (VStr "string error") = Return "string error"
  /\ ToString (VNum (-12)) = Return "-12"
  /\ ToString (VDouble "1e+21") = Return "1e+21"
  /\ ToString VNull = Return "null"
  /\ ToString (VArr [VNum 1; VNull; VStr "a"]) = Return "1,,a"
  /\ ToString (VError "TypeError" "boom") = Return "TypeError: boom"
  /\ ToString (VObj 1 (inl "[object Object]")) = Return "[object Object]"
  /\ ToString (VObj 1 (inr (VError "TypeError" "no text")))
     = Throw (VError "TypeError" "no text")
  /\ ToString (VArr [VNum 1; VObj 2 (inr (VNum 42)); VStr "a"])
     = Throw (VNum 42).
Proof. repeat split; vm_compute; reflexivity. Qed.

(** The operand [e instanceof Error ? e : new Error(String(e))], which
    [unwrap], [trySync] and [tryAsync] all evaluate: when it returns, it
    returns an [Error]. *)
Lemma normalized_is_Error (e payload : value) :
  (if instanceof_Error e then Return e
   else Js.bind (ToString e) (fun text => Return (new_Error text)))
  = Return payload ->
  instanceof_Error payload = true.
Proof.
  destruct (instanceof_Error e) eqn:He.
  - intros [= <-]. exact He.
  - destruct (ToString e) as [text | thrown]; cbn; [| discriminate].
    intros [= <-]. reflexivity.
Qed.

(** [unwrap] never returns from a failure. *)
Lemma unwrap_failure_throws (error : value) :
  exists thrown, ResultMethods.unwrap (Err error) = Throw thrown.
Proof.
  cbn. destruct (instanceof_Error error); cbn; [eauto |].
  destruct (ToString error) as [text | thrown]; cbn; eauto.
Qed.




(** ** The adapters *)




(** C9: [fromNullable] returns [Ok] of the value when it is neither [null]
    nor [undefined], and [Err] of the supplied error otherwise; zero, the
    empty text and [false] are present values. *)
Theorem fromNullable_spec (v e : value) :
  (v <> VNull -> v <> VUndefined -> fromNullable v e = ok v)
  /\ (v = VNull \/ v = VUndefined -> fromNullable v e = err e)
  /\ fromNullable (VNum 0) e = ok (VNum 0)
  /\ fromNullable (VStr "") e = ok (VStr "")
  /\ fromNullable (VBool false) e = ok (VBool false).
Proof.
  repeat split.
  - intros Hnull Hundef. destruct v; try reflexivity; congruence.
  - intros [-> | ->]; reflexivity.
Qed.

Lemma fromNullable_spec_witness :
  fromNullable (VNum 42) (VStr "was null") = ok (VNum 42)
  /\ fromNullable VNull (VStr "was null") = err (VStr "was null")
  /\ fromNullable VUndefined (VStr "was undefined") = err (VStr "was undefined").
Proof.
  split; [| split].
  - apply (fromNullable_spec (VNum 42) (VStr "was null")); discriminate.
  - apply (fromNullable_spec VNull (VStr "was null")). left; reflexivity.
  - apply (fromNullable_spec VUndefined (VStr "was undefined")).
    right; reflexivity.
Defined.

(** ** The collection combinators *)

Section Scans.

Implicit Types (results rest : list Result) (values errors : list value).

(** Every array of Results is either all successes, or a run of successes
    followed by a first failure and the rest. *)
Lemma first_failure_split results :
  (exists values, results = ok <$> values)
  \/ (exists values error rest, results = (ok <$> values) ++ err error :: rest).
Proof.
  induction results as [| [value | error] results IH].
  - left. exists []. reflexivity.
  - destruct IH as [(values & ->) | (values & error & rest & ->)].
    + left. exists (value :: values). reflexivity.
    + right. exists (value :: values), error, rest. reflexivity.
  - right. exists [], error, results. reflexivity.
Qed.

(** Dually: all failures, or a run of failures followed by a first
    success and the rest. *)
Lemma first_success_split results :
  (exists errors, results = err <$> errors)
  \/ (exists errors value rest, results = (err <$> errors) ++ ok value :: rest).
Proof.
  induction results as [| [value | error] results IH].
  - left. exists []. reflexivity.
  - right. exists [], value, results. reflexivity.
  - destruct IH as [(errors & ->) | (errors & value & rest & ->)].
    + left. exists (error :: errors). reflexivity.
    + right. exists (error :: errors), value, rest. reflexivity.
Qed.

(** The loop of [all] pushes the payload of every success it passes. *)
Lemma all_loop_successes values rest acc :
  all_loop ((ok <$> values) ++ rest) acc = all_loop rest (acc ++ values).
Proof.
  revert acc. induction values as [| value values IH]; intros acc; cbn.
  - by rewrite app_nil_r.
  - rewrite IH, <- app_assoc. reflexivity.
Qed.

(** The loop of [any] passes every failure. *)
Lemma any_loop_failures errors rest :
  any_loop ((err <$> errors) ++ rest) = any_loop rest.
Proof.
  induction errors as [| error errors IH]; cbn; [reflexivity | exact IH].
Qed.

Lemma nth_last_index {A} (l : list A) (x d : A) :
  nth (length (l ++ [x]) - 1) (l ++ [x]) d = x.
Proof.
  rewrite length_app. cbn [length].
  replace (length l + 1 - 1)%nat with (length l) by lia.
  rewrite app_nth2 by lia.
  by rewrite Nat.sub_diag.
Qed.

(** The loop of [partition], started from any pair of accumulators. *)
Lemma partition_loop_filter results successes failures :
  partition_loop results successes failures
  = (successes ++ (field_value <$> List.filter isOk results),
     failures ++ (field_error <$> List.filter isErr results)).
Proof.
  revert successes failures.
  induction results as [| [value | error] results IH];
    intros successes failures; cbn.
  - by rewrite !app_nil_r.
  - rewrite IH, <- app_assoc. reflexivity.
  - rewrite IH, <- app_assoc. reflexivity.
Qed.

End Scans.

(** The collection examples of the test suite. *)
Example all_of_successes :
  all [ok (VNum 1); ok (VNum 2); ok (VNum 3)] = ok (VArr [VNum 1; VNum 2; VNum 3]).
Proof. reflexivity. Qed.

Example all_first_failure :
  all [ok (VNum 1); err (VStr "fail"); ok (VNum 3)] = err (VStr "fail").
Proof. reflexivity. Qed.

Example any_first_success :
  any [err (VStr "a"); ok (VNum 42); ok (VNum 99)] = ok (VNum 42).
Proof. reflexivity. Qed.

Example any_last_failure :
  any [err (VStr "a"); err (VStr "b"); err (VStr "c")] = err (VStr "c").
Proof. reflexivity. Qed.

Example partition_preserves_order :
  partition [ok (VNum 3); err (VStr "x"); ok (VNum 1); err (VStr "y"); ok (VNum 2)]
  = ([VNum 3; VNum 1; VNum 2], [VStr "x"; VStr "y"]).
Proof. reflexivity. Qed.

(** C6: [all] returns the first failure of the array, as it is and whatever
    follows it; with no failure it returns [Ok] of the array of all success
    payloads in input order; on the empty array it returns [Ok] of the empty
    array. The last conjunct says the first two cases cover every input. *)
Theorem all_spec :
  (forall values error rest,
      all ((ok <$> values) ++ err error :: rest) = err error)
  /\ (forall values, all (ok <$> values) = ok (VArr values))
  /\ all [] = ok (VArr [])
  /\ (forall results,
        (exists values, results = ok <$> values)
        \/ (exists values error rest,
              results = (ok <$> values) ++ err error :: rest)).
Proof.
  split; [| split; [| split]].
  - intros values error rest. unfold all.
    rewrite all_loop_successes. reflexivity.
  - intros values. unfold all.
    rewrite <- (app_nil_r (ok <$> values)), all_loop_successes.
    reflexivity.
  - reflexivity.
  - exact first_failure_split.
Qed.

(** C7: [any] returns the first success of the array, whatever follows it;
    on a non-empty array with no success it returns the last element, a
    failure; on the empty array it returns a failure it builds itself, with
    an [Error] payload. The last conjunct says the cases cover every input. *)
Theorem any_spec :
  (forall errors value rest,
      any ((err <$> errors) ++ ok value :: rest) = ok value)
  /\ (forall errors error, any ((err <$> errors) ++ [err error]) = err error)
  /\ any [] = err (new_Error "any() called with empty array")
  /\ (forall results,
        results = []
        \/ (exists errors value rest,
              results = (err <$> errors) ++ ok value :: rest)
        \/ (exists errors error, results = (err <$> errors) ++ [err error])).
Proof.
  split; [| split; [| split]].
  - intros errors value rest. unfold any.
    rewrite any_loop_failures. cbn [any_loop ok createOk ResultMethods.isOk].
    rewrite length_app. cbn [length].
    case_eq (length (err <$> errors) + S (length rest) =? 0)%nat;
      [rewrite Nat.eqb_eq; lia | reflexivity].
  - intros errors error. unfold any.
    rewrite any_loop_failures. cbn [any_loop err createErr ResultMethods.isOk].
    rewrite nth_last_index, length_app. cbn [length].
    case_eq (length (err <$> errors) + 1 =? 0)%nat;
      [rewrite Nat.eqb_eq; lia | reflexivity].
  - reflexivity.
  - intros results.
    destruct (first_success_split results)
      as [(errors & ->) | (errors & value & rest & ->)].
    + destruct errors as [| e errors _] using rev_ind; [by left |].
      right; right. exists errors, e. by rewrite fmap_app.
    + right; left. eauto.
Qed.

(** C1: [partition] returns the payloads of the successes and the payloads
    of the failures, each in input order; every element lands in exactly one
    of the two sequences; the empty input gives two empty sequences. The
    function is total: it returns on every input. *)
Theorem partition_spec (results : list Result) :
  partition results
  = (field_value <$> List.filter isOk results,
     field_error <$> List.filter isErr results)
  /\ (length (partition results).1 + length (partition results).2
      = length results)%nat
  /\ partition [] = ([], [])
  /\ partition [ok (VNum 1); err (VStr "a"); ok (VNum 2); err (VStr "b")]
     = ([VNum 1; VNum 2], [VStr "a"; VStr "b"]).
Proof.
  assert (Hchar : partition results
                  = (field_value <$> List.filter isOk results,
                     field_error <$> List.filter isErr results))
    by (unfold partition; apply partition_loop_filter).
  split; [exact Hchar |].
  split; [| split; reflexivity].
  rewrite Hchar. cbn [fst snd]. rewrite !length_fmap.
  clear Hchar. induction results as [| [value | error] results IH]; cbn; lia.
Qed.

(** ** Instances: what the transformations allocate and what they return *)

Section Instances.

Implicit Types (h : Store.heap) (self : Store.ref) (object : Result).

Lemma alloc_new_instance object h :
  Store.new_instance h object (Some (Store.alloc object h)).
Proof.
  unfold Store.alloc.
  exists (fresh (dom h)), (<[fresh (dom h) := object]> h).
  split; [reflexivity |].
  split; [| reflexivity].
  apply not_elem_of_dom, is_fresh.
Qed.

(** A new instance is not the receiver, and allocating it changes no
    instance that was there. *)
Lemma new_instance_frame h self object created out :
  h !! self = Some object ->
  Store.new_instance h created out ->
  exists result h',
    out = Some (result, h')
    /\ result <> self
    /\ h' !! result = Some created
    /\ h ⊆ h'.
Proof.
  intros Hself (result & h' & -> & Hfresh & ->).
  exists result, (<[result := created]> h).
  split; [reflexivity |].
  split; [congruence |].
  split; [apply lookup_insert_eq | by apply insert_subseteq].
Qed.

(** The instance a method returns holds the object the method computes by
    content: [Store.map] refines [ResultMethods.map], and [Store.mapErr]
    refines [ResultMethods.mapErr]. *)
Lemma Store_map_content h self object fn :
  h !! self = Some object ->
  exists result h',
    Store.map self fn h = Some (result, h')
    /\ h' !! result = Some (ResultMethods.map object fn).
Proof.
  intros Hself. unfold Store.map. rewrite Hself.
  destruct object as [value | error]; cbn.
  - do 2 eexists. split; [reflexivity |]. apply lookup_insert_eq.
  - eauto.
Qed.

Lemma Store_mapErr_content h self object fn :
  h !! self = Some object ->
  exists result h',
    Store.mapErr self fn h = Some (result, h')
    /\ h' !! result = Some (ResultMethods.mapErr object fn).
Proof.
  intros Hself. unfold Store.mapErr. rewrite Hself.
  destruct object as [value | error]; cbn.
  - eauto.
  - do 2 eexists. split; [reflexivity |]. apply lookup_insert_eq.
Qed.

End Instances.

(** C3, as the code has it: no transformation mutates its receiver or any
    other instance. [map] on a success and [mapErr] on a failure allocate a
    new instance, distinct from the receiver, that holds the transformed
    payload; [map] and [flatMap] on a failure and [mapErr] on a success return
    the receiver itself and leave the heap as it was; [flatMap] on a success
    returns exactly what its callback returns. *)
Theorem transformations_frame
    (h : Store.heap) (self : Store.ref) (object : Result)
    (fn : value -> value)
    (callback : value -> Store.heap -> Store.ref * Store.heap) :
  h !! self = Some object ->
  (forall result h',
      Store.map self fn h = Some (result, h')
      \/ Store.mapErr self fn h = Some (result, h') ->
      h ⊆ h' /\ h' !! self = Some object)
  /\ match object with
     | Ok value =>
         Store.new_instance h (Ok (fn value)) (Store.map self fn h)
         /\ Store.same_instance h self (Store.mapErr self fn h)
         /\ Store.flatMap self callback h = Some (callback value h)
     | Err error =>
         Store.same_instance h self (Store.map self fn h)
         /\ Store.new_instance h (Err (fn error)) (Store.mapErr self fn h)
         /\ Store.same_instance h self (Store.flatMap self callback h)
     end.
Proof.
  intros Hself.
  assert (Hcases :
    match object with
    | Ok value =>
        Store.new_instance h (Ok (fn value)) (Store.map self fn h)
        /\ Store.same_instance h self (Store.mapErr self fn h)
        /\ Store.flatMap self callback h = Some (callback value h)
    | Err error =>
        Store.same_instance h self (Store.map self fn h)
        /\ Store.new_instance h (Err (fn error)) (Store.mapErr self fn h)
        /\ Store.same_instance h self (Store.flatMap self callback h)
    end).
  { unfold Store.map, Store.mapErr, Store.flatMap, Store.same_instance.
    rewrite Hself.
    destruct object as [value | error]; repeat split;
      apply alloc_new_instance. }
  split; [| exact Hcases].
  assert (Hkeep : forall created out result h',
             Store.new_instance h created out ->
             out = Some (result, h') ->
             h ⊆ h' /\ h' !! self = Some object).
  { intros created out result h' Hnew Hout.
    destruct (new_instance_frame h self object created out Hself Hnew)
      as (result' & h'' & Hout' & _ & _ & Hsub).
    assert (h'' = h') as -> by congruence.
    split; [exact Hsub | by eapply lookup_weaken]. }
  intros result h' Hout.
  destruct object as [value | error];
    destruct Hcases as (Hmap & HmapErr & _);
    unfold Store.same_instance in *;
    destruct Hout as [Hout | Hout].
  - by eapply Hkeep.
  - assert (h' = h) as -> by congruence. done.
  - assert (h' = h) as -> by congruence. done.
  - by eapply Hkeep.
Qed.

Lemma transformations_frame_witness :
  let '(self, h) := Store.createOk (VNum 2) ∅ in
  h !! self = Some (Ok (VNum 2))
  /\ (exists result h',
        Store.map self (fun _ => VNum 6) h = Some (result, h')
        /\ result <> self
        /\ h' !! result = Some (Ok (VNum 6))
        /\ h' !! self = Some (Ok (VNum 2)))
  /\ Store.mapErr self (fun _ => VNum 6) h = Some (self, h).
Proof.
  destruct (Store.createOk (VNum 2) ∅) as [self h] eqn:Hcreate.
  assert (Hself : h !! self = Some (Ok (VNum 2))).
  { injection Hcreate as <- <-. apply lookup_insert_eq. }
  split; [exact Hself |].
  destruct (transformations_frame h self (Ok (VNum 2)) (fun _ => VNum 6)
              (fun v => Store.createOk v) Hself)
    as (Hkeep & Hmap & HmapErr & _).
  split; [| exact HmapErr].
  destruct (new_instance_frame h self _ _ _ Hself Hmap)
    as (result & h' & Hout & Hne & Hres & _).
  exists result, h'.
  split; [exact Hout |].
  split; [exact Hne |].
  split; [exact Hres |].
  apply (Hkeep result h'). left; exact Hout.
Defined.

(** C3, as the spec has it, fails: [err("fail").map(() => 99)] returns its
    receiver, and so do [ok(42).mapErr(() => "nope")] and
    [err("fail").flatMap(() => ok(99))]. *)
Lemma transformation_returns_receiver :
  (let '(self, h) := Store.createErr (VStr "fail") ∅ in
   Store.map self (fun _ => VNum 99) h = Some (self, h)
   /\ Store.flatMap self (fun _ => Store.createOk (VNum 99)) h = Some (self, h))
  /\ (let '(self, h) := Store.createOk (VNum 42) ∅ in
      Store.mapErr self (fun _ => VStr "nope") h = Some (self, h))
  /\ ~ Store.always_new_instance
        (fun self => Store.map self (fun _ => VNum 99))
  /\ ~ Store.always_new_instance
        (fun self => Store.mapErr self (fun _ => VStr "nope"))
  /\ ~ Store.always_new_instance
        (fun self => Store.flatMap self (fun _ => Store.createOk (VNum 99))).
Proof.
  assert (Hmap : forall error (h : Store.heap) self fn,
             h !! self = Some (Err error) ->
             Store.map self fn h = Some (self, h)).
  { intros error h self fn Hself. unfold Store.map. by rewrite Hself. }
  assert (HflatMap : forall error (h : Store.heap) self callback,
             h !! self = Some (Err error) ->
             Store.flatMap self callback h = Some (self, h)).
  { intros error h self callback Hself. unfold Store.flatMap. by rewrite Hself. }
  assert (HmapErr : forall value (h : Store.heap) self fn,
             h !! self = Some (Ok value) ->
             Store.mapErr self fn h = Some (self, h)).
  { intros value h self fn Hself. unfold Store.mapErr. by rewrite Hself. }
  assert (Hfail : forall (op : Store.ref -> Store.heap -> option (Store.ref * Store.heap))
                    (h : Store.heap) self object,
             h !! self = Some object ->
             op self h = Some (self, h) ->
             ~ Store.always_new_instance op).
  { intros op h self object Hself Hop Hall.
    destruct (Hall h self object Hself) as (result & h' & Hout & Hne).
    congruence. }
  split; [| split; [| split; [| split]]].
  - destruct (Store.createErr (VStr "fail") ∅) as [self h] eqn:Hcreate.
    injection Hcreate as <- <-.
    split; [eapply Hmap | eapply HflatMap]; apply lookup_insert_eq.
  - destruct (Store.createOk (VNum 42) ∅) as [self h] eqn:Hcreate.
    injection Hcreate as <- <-.
    eapply HmapErr, lookup_insert_eq.
  - apply (Hfail _ {[1%positive := Err (VStr "fail")]} 1%positive
             (Err (VStr "fail"))); [done |].
    by apply (Hmap (VStr "fail")).
  - apply (Hfail _ {[1%positive := Ok (VNum 42)]} 1%positive
             (Ok (VNum 42))); [done |].
    by apply (HmapErr (VNum 42)).
  - apply (Hfail _ {[1%positive := Err (VStr "fail")]} 1%positive
             (Err (VStr "fail"))); [done |].
    by apply (HflatMap (VStr "fail")).
Qed.

(** * Further properties of the module *)

(** ** Transformations *)

(** X1: [map] with the identity function gives back a Result equal to its
    receiver, success or failure. *)
Theorem map_identity (r : Result) :
  ResultMethods.map r (fun x => x) = r.
Proof.
  destruct r as [value | error]; reflexivity.
Qed.

(** X2: [mapErr] is a functor on the failure side: the identity function
    gives back the receiver, and two [mapErr] in a row are one [mapErr] of
    the composed function. *)
Theorem mapErr_functor (r : Result) (f g : value -> value) :
  ResultMethods.mapErr r (fun e => e) = r
  /\ ResultMethods.mapErr (ResultMethods.mapErr r f) g
     = ResultMethods.mapErr r (g ∘ f).
Proof.
  split; case r; intros payload; reflexivity.
Qed.

(** X3: [map] and [mapErr] act on different sides and commute. *)
Theorem map_mapErr_commute (r : Result) (f g : value -> value) :
  ResultMethods.map (ResultMethods.mapErr r f) g
  = ResultMethods.mapErr (ResultMethods.map r g) f.
Proof.
  destruct r as [value | error]; reflexivity.
Qed.

(** X4: neither [map] nor [mapErr] changes the variant, and each leaves the
    payload of the other side alone. *)
Theorem map_mapErr_keep_variant (r : Result) (f : value -> value) :
  field_ok (ResultMethods.map r f) = field_ok r
  /\ field_error (ResultMethods.map r f) = field_error r
  /\ field_ok (ResultMethods.mapErr r f) = field_ok r
  /\ field_value (ResultMethods.mapErr r f) = field_value r.
Proof.
  destruct r as [value | error]; cbn; auto.
Qed.

(** X5: [ok] is a unit of [flatMap]: chaining [ok] gives back the receiver,
    and [map] is [flatMap] with the callback's value wrapped by [ok]. *)
Theorem flatMap_ok_unit (r : Result) (f : value -> value) :
  ResultMethods.flatMap r ok = r
  /\ ResultMethods.flatMap r (ok ∘ f) = ResultMethods.map r f.
Proof.
  split; destruct r as [value | error]; reflexivity.
Qed.

(** X6: a failure goes through any chain of [map] and of [flatMap] steps
    unchanged, and a success goes through any chain of [mapErr] steps
    unchanged. *)
Theorem chain_short_circuits (v e : value)
    (fns : list (value -> value)) (steps : list (value -> Result)) :
  fold_left ResultMethods.map fns (err e) = err e
  /\ fold_left ResultMethods.flatMap steps (err e) = err e
  /\ fold_left ResultMethods.mapErr fns (ok v) = ok v.
Proof.
  split; [| split].
  - induction fns as [| fn fns IH]; [reflexivity | exact IH].
  - induction steps as [| step steps IH]; [reflexivity | exact IH].
  - induction fns as [| fn fns IH]; [reflexivity | exact IH].
Qed.

(** X7: when a [flatMap] comes out as a success, the receiver was a success
    and the outcome is what the callback returned for its payload. *)
Theorem flatMap_success_inv (r : Result) (step : value -> Result) :
  field_ok (ResultMethods.flatMap r step) = true ->
  field_ok r = true
  /\ ResultMethods.flatMap r step = step (field_value r).
Proof.
  destruct r as [value | error]; cbn.
  - intros _. split; reflexivity.
  - discriminate.
Qed.

Lemma flatMap_success_inv_witness :
  field_ok (ok (VNum 10)) = true
  /\ ResultMethods.flatMap (ok (VNum 10)) (fun x => ok (VArr [x]))
     = ok (VArr [VNum 10]).
Proof.
  apply (flatMap_success_inv (ok (VNum 10)) (fun x => ok (VArr [x]))).
  reflexivity.
Defined.

(** ** Terminal operations *)

(** X8: [match] factors through the other methods: it is [map] with the
    success handler followed by [unwrapOrElse] with the failure handler;
    [unwrapOrElse] is [match] with the identity on the success side, and
    [unwrapOr] is [unwrapOrElse] with a constant function. *)
Theorem match_factors (r : Result) (on_ok on_err : value -> value) (fallback : value) :
  ResultMethods.match_ r on_ok on_err
  = ResultMethods.unwrapOrElse (ResultMethods.map r on_ok) on_err
  /\ ResultMethods.unwrapOrElse r on_err
     = ResultMethods.match_ r (fun x => x) on_err
  /\ ResultMethods.unwrapOr r fallback
     = ResultMethods.unwrapOrElse r (fun _ => fallback).
Proof.
  destruct r as [value | error]; repeat split.
Qed.

(** X9: of [unwrap] and [unwrapErr] exactly one returns and the other
    throws: on a success [unwrap] returns the payload and [unwrapErr] throws
    an [Error] with the message "Called unwrapErr() on an Ok result"; on a
    failure [unwrapErr] returns the payload and [unwrap] throws. *)
Theorem unwrap_unwrapErr_dual (r : Result) :
  (ResultMethods.unwrap r = Return (field_value r)
   /\ ResultMethods.unwrapErr r
      = Throw (new_Error "Called unwrapErr() on an Ok result")
   /\ field_ok r = true)
  \/ (ResultMethods.unwrapErr r = Return (field_error r)
      /\ (exists thrown, ResultMethods.unwrap r = Throw thrown)
      /\ field_ok r = false).
Proof.
  destruct r as [value | error].
  - left. repeat split.
  - right. split; [reflexivity |]. split; [| reflexivity].
    apply unwrap_failure_throws.
Qed.

(** X10: [unwrapOr] gives the fallback exactly where [unwrap] would throw and
    the value [unwrap] returns elsewhere; [unwrapOrElse] applies its callback
    to the payload [unwrapErr] returns. *)
Theorem unwrapOr_follows_unwrap (r : Result) (fallback : value) (fn : value -> value) :
  ResultMethods.unwrapOr r fallback
  = match ResultMethods.unwrap r with
    | Return value => value
    | Throw _ => fallback
    end
  /\ ResultMethods.unwrapOrElse r fn
     = match ResultMethods.unwrapErr r with
       | Return error => fn error
       | Throw _ => field_value r
       end.
Proof.
  destruct r as [value | error]; split; try reflexivity.
  destruct (unwrap_failure_throws error) as (thrown & ->). reflexivity.
Qed.

(** X11: the plain object of [toJSON] reads like the instance: its [ok],
    [value] and [error] properties are the fields of the instance, it has
    two properties and no other, and two instances with the same plain
    object are equal. *)
Theorem toJSON_faithful (r r' : Result) :
  property (ResultMethods.toJSON r) "ok" = VBool (field_ok r)
  /\ property (ResultMethods.toJSON r) "value" = field_value r
  /\ property (ResultMethods.toJSON r) "error" = field_error r
  /\ (fst <$> ResultMethods.toJSON r)
     = ["ok"; if field_ok r then "value" else "error"]
  /\ (ResultMethods.toJSON r = ResultMethods.toJSON r' <-> r = r').
Proof.
  split; [| split; [| split; [| split]]];
    try (destruct r as [value | error]; reflexivity).
  split.
  - destruct r as [value | error], r' as [value' | error']; cbn;
      intros Heq; inversion Heq; reflexivity.
  - intros ->. reflexivity.
Qed.

(** ** Collections *)

Section Filters.

Implicit Types (results rest : list Result) (values errors : list value).

Lemma filter_isErr_successes values rest :
  List.filter isErr ((ok <$> values) ++ rest) = List.filter isErr rest.
Proof.
  induction values as [| value values IH]; [reflexivity | exact IH].
Qed.

Lemma filter_isOk_failures errors rest :
  List.filter isOk ((err <$> errors) ++ rest) = List.filter isOk rest.
Proof.
  induction errors as [| error errors IH]; [reflexivity | exact IH].
Qed.

Lemma payloads_of_successes values :
  field_value <$> (ok <$> values) = values.
Proof.
  induction values as [| value values IH]; cbn; [| rewrite IH]; reflexivity.
Qed.

Lemma forallb_isOk_successes values : forallb isOk (ok <$> values) = true.
Proof.
  induction values as [| value values IH]; [reflexivity | exact IH].
Qed.

Lemma existsb_isOk_failures errors : existsb isOk (err <$> errors) = false.
Proof.
  induction errors as [| error errors IH]; [reflexivity | exact IH].
Qed.

Lemma all_successes values : all (ok <$> values) = ok (VArr values).
Proof.
  unfold all.
  rewrite <- (app_nil_r (ok <$> values)), all_loop_successes.
  reflexivity.
Qed.

Lemma all_first_failure_rest values error rest :
  all ((ok <$> values) ++ err error :: rest) = err error.
Proof.
  unfold all. rewrite all_loop_successes. reflexivity.
Qed.

Lemma length_nonzero {A} (l l' : list A) (x : A) :
  (length (l ++ x :: l') =? 0)%nat = false.
Proof.
  apply Nat.eqb_neq. rewrite length_app. cbn. lia.
Qed.

Lemma any_first_success_rest errors value rest :
  any ((err <$> errors) ++ ok value :: rest) = ok value.
Proof.
  unfold any. rewrite length_nonzero, any_loop_failures. reflexivity.
Qed.

Lemma any_all_failures errors error :
  any ((err <$> errors) ++ [err error]) = err error.
Proof.
  unfold any. rewrite length_nonzero, any_loop_failures. cbn [any_loop].
  cbn [err createErr ResultMethods.isOk]. apply nth_last_index.
Qed.

(** An array of Results is empty, or has a first success after a run of
    failures, or is a non-empty run of failures. *)
Lemma any_input_cases results :
  results = []
  \/ (exists errors value rest,
        results = (err <$> errors) ++ ok value :: rest)
  \/ (exists errors error, results = (err <$> errors) ++ [err error]).
Proof.
  destruct (first_success_split results)
    as [(errors & ->) | (errors & value & rest & ->)].
  - destruct errors as [| e errors _] using rev_ind; [by left |].
    right; right. exists errors, e. by rewrite fmap_app.
  - right; left. eauto.
Qed.

End Filters.

(** X12: [all] returns the first of the failures of its input when there is
    one, and otherwise [Ok] of the payloads of all the elements. *)
Theorem all_by_failures (results : list Result) :
  all results
  = match List.filter isErr results with
    | failure :: _ => failure
    | [] => ok (VArr (field_value <$> results))
    end.
Proof.
  destruct (first_failure_split results)
    as [(values & ->) | (values & error & rest & ->)].
  - rewrite <- (app_nil_r (ok <$> values)) at 2.
    rewrite filter_isErr_successes, payloads_of_successes.
    apply all_successes.
  - rewrite filter_isErr_successes. cbn. apply all_first_failure_rest.
Qed.

(** X13: when [all] returns [Ok] of an array, every element of the input is
    a success and the input is [ok] of each element of that array, in that
    order. *)
Theorem all_success_inv (results : list Result) (values : list value) :
  all results = ok (VArr values) ->
  forallb isOk results = true /\ results = ok <$> values.
Proof.
  destruct (first_failure_split results)
    as [(payloads & ->) | (payloads & error & rest & ->)].
  - rewrite all_successes.
    intros [= ->]. split; [apply forallb_isOk_successes | reflexivity].
  - rewrite all_first_failure_rest. discriminate.
Qed.

Lemma all_success_inv_witness :
  forallb isOk [Ok (VNum 1); Ok (VStr "two")] = true
  /\ [Ok (VNum 1); Ok (VStr "two")] = ok <$> [VNum 1; VStr "two"].
Proof.
  apply (all_success_inv [Ok (VNum 1); Ok (VStr "two")] [VNum 1; VStr "two"]).
  reflexivity.
Defined.

(** X14: the variant of [all]'s outcome is the conjunction of the variants
    of the elements, and the variant of [any]'s outcome is their
    disjunction; in particular [all] of no element is a success and [any]
    of no element is a failure. *)
Theorem all_any_variant (results : list Result) :
  isOk (all results) = forallb isOk results
  /\ isOk (any results) = existsb isOk results.
Proof.
  split.
  - destruct (first_failure_split results)
      as [(values & ->) | (values & error & rest & ->)].
    + by rewrite all_successes, forallb_isOk_successes.
    + rewrite all_first_failure_rest, forallb_app. cbn.
      by rewrite andb_false_r.
  - destruct (any_input_cases results)
      as [-> | [(errors & value & rest & ->) | (errors & error & ->)]].
    + reflexivity.
    + rewrite any_first_success_rest, existsb_app. cbn.
      by rewrite orb_true_r.
    + by rewrite any_all_failures, existsb_app, existsb_isOk_failures.
Qed.

(** X15: [any] returns the first of the successes of its input when there is
    one; otherwise the last element of the input, or the failure it builds
    itself when the input has no element. *)
Theorem any_by_successes (results : list Result) :
  any results
  = match List.filter isOk results with
    | success :: _ => success
    | [] => List.last results (err (new_Error "any() called with empty array"))
    end.
Proof.
  destruct (any_input_cases results)
    as [-> | [(errors & value & rest & ->) | (errors & error & ->)]].
  - reflexivity.
  - rewrite any_first_success_rest, filter_isOk_failures. reflexivity.
  - rewrite any_all_failures, filter_isOk_failures. cbn.
    by rewrite last_last.
Qed.

(** X16: on an input with at least one element, [any] returns one of the
    elements of the input. *)
Theorem any_returns_element (results : list Result) :
  results <> [] -> In (any results) results.
Proof.
  intros Hne.
  destruct (any_input_cases results)
    as [-> | [(errors & value & rest & ->) | (errors & error & ->)]].
  - congruence.
  - rewrite any_first_success_rest. apply in_or_app. right. left. reflexivity.
  - rewrite any_all_failures. apply in_or_app. right. left. reflexivity.
Qed.

Lemma any_returns_element_witness :
  In (any [err (VStr "a"); err (VStr "b")]) [err (VStr "a"); err (VStr "b")].
Proof.
  apply (any_returns_element [err (VStr "a"); err (VStr "b")]).
  discriminate.
Defined.

(** X17: [allTuple] returns what [all] returns on the array of its
    arguments. *)
Theorem allTuple_is_all (results : list Result) :
  allTuple results = all results.
Proof.
  unfold allTuple, all. generalize (@nil value) as values.
  induction results as [| result results IH]; intros values; cbn.
  - reflexivity.
  - destruct (field_ok result); cbn; [apply IH | reflexivity].
Qed.

(** ** Adapters and [unwrap] *)



(** X25: a failure that [trySync] returns carries an [Error], whatever the
    computation threw. *)
Theorem trySync_failure_is_Error (fn : unit -> Completion value) (r : Result) :
  trySync fn = Return r ->
  field_ok r = false ->
  instanceof_Error (field_error r) = true.
Proof.
  unfold trySync. destruct (fn tt) as [x | e]; cbn.
  - intros [= <-]. discriminate.
  - destruct (if instanceof_Error e then Return e
              else Js.bind (ToString e) (fun text => Return (new_Error text)))
      as [payload | thrown] eqn:Hpayload; cbn; [| discriminate].
    intros [= <-] _. cbn. by eapply normalized_is_Error.
Qed.

Lemma trySync_failure_is_Error_witness :
  instanceof_Error (field_error (err (new_Error "12"))) = true.
Proof.
  apply (trySync_failure_is_Error (fun _ => Throw (VNum 12))
           (err (new_Error "12")));
    reflexivity.
Defined.

(** X20: a success that [fromNullable] returns holds the value it was given,
    and that value is neither [null] nor [undefined]. *)
Theorem fromNullable_success_inv (v e : value) :
  field_ok (fromNullable v e) = true ->
  fromNullable v e = ok v /\ v <> VNull /\ v <> VUndefined.
Proof.
  unfold fromNullable.
  destruct v; cbn; intros Hok; try discriminate; repeat split; discriminate.
Qed.

Lemma fromNullable_success_inv_witness :
  fromNullable (VStr "") (VStr "absent") = ok (VStr "")
  /\ VStr "" <> VNull /\ VStr "" <> VUndefined.
Proof.
  apply (fromNullable_success_inv (VStr "") (VStr "absent")).
  reflexivity.
Defined.




(** X22: [tryAsync] normalises like [trySync]: on a promise settled the way
    a computation ends (fulfilled with what it returns, rejected with what
    it throws), the promise of [tryAsync] is fulfilled with the Result
    [trySync] returns for that computation (and rejected with what [trySync]
    throws, when it does). A function that throws is
    treated like a rejected promise, a function that returns a promise like
    that promise, and [fromPromise] like [tryAsync] of the promise. *)
Theorem tryAsync_like_trySync (outcome : Completion value)
    (promise : Promise value) (e : value) :
  tryAsync (DeferredPromise (async (Some outcome)))
  = async (Some (trySync (fun _ => outcome)))
  /\ tryAsync (DeferredFunction (fun _ => Throw e))
     = tryAsync (DeferredPromise (Rejected e))
  /\ tryAsync (DeferredFunction (fun _ => Return promise))
     = tryAsync (DeferredPromise promise)
  /\ fromPromise promise = tryAsync (DeferredFunction (fun _ => Return promise)).
Proof.
  split; [| split; [| split]]; try reflexivity.
  destruct outcome as [value | thrown]; reflexivity.
Qed.

(** ** Instances *)

(** X23: two calls of a factory give two distinct instances, also for equal
    payloads; both are live afterwards and no instance that was there before
    is changed. *)
Theorem factories_give_distinct_instances (h : Store.heap) (v : value) :
  let '(first, h1) := Store.createOk v h in
  let '(second, h2) := Store.createOk v h1 in
  first <> second
  /\ h2 !! first = Some (Ok v)
  /\ h2 !! second = Some (Ok v)
  /\ h ⊆ h2.
Proof.
  unfold Store.createOk.
  destruct (Store.alloc (createOk v) h) as [first h1] eqn:Hfirst.
  destruct (Store.alloc (createOk v) h1) as [second h2] eqn:Hsecond.
  destruct (alloc_new_instance (createOk v) h)
    as (l1 & h1' & Hout1 & Hfresh1 & Hh1).
  destruct (alloc_new_instance (createOk v) h1)
    as (l2 & h2' & Hout2 & Hfresh2 & Hh2).
  rewrite Hfirst in Hout1. rewrite Hsecond in Hout2.
  injection Hout1 as <- <-. injection Hout2 as <- <-.
  assert (Hlive : h1 !! first = Some (Ok v))
    by (rewrite Hh1; apply lookup_insert_eq).
  assert (Hne : first <> second) by congruence.
  split; [exact Hne |].
  split; [rewrite Hh2, lookup_insert_ne by congruence; exact Hlive |].
  split; [rewrite Hh2; apply lookup_insert_eq |].
  transitivity h1.
  - rewrite Hh1. by apply insert_subseteq.
  - rewrite Hh2. by apply insert_subseteq.
Qed.
